(** * The progress controller of src/js/app.js

    The script builds one Vue instance whose data is a single field,
    [progress], and whose [methods] object holds two functions, [advance]
    and [retreat].  This file embeds that instance and proves the
    properties stated about it.

    Numbers.  [progress] holds a JavaScript number, a binary64 float.  It
    starts at 0 and the two methods only add 1, subtract 1 and clamp with
    [Math.min] and [Math.max], so every value they produce from the initial
    state is an integer between 0 and 100.  The field is modelled by [Z].
    The model and the script agree wherever every number involved is an
    integer of magnitude at most 2^53 - 1 ([safe_integer] below): there the
    sums and differences of the script are exact.  Outside that range the
    script rounds and the model does not, so a property stated of the script
    carries a range hypothesis unless the clamp makes the rounding
    invisible.

    Calls.  Both methods are declared as [function()] with an empty
    parameter list and never read [arguments].  A caller may still pass
    anything (an inline handler can write [advance(1000)], a handler bound by
    name receives the DOM event), so a method of the model receives the list
    of actual arguments, exactly as the function does, and its body decides
    what to do with it. *)

From Stdlib Require Import ZArith List Lia.
Import ListNotations.

Local Open Scope Z_scope.

(** ** Values and the instance data *)

(** What a caller can put in an argument position. *)
Inductive value : Type :=
| VUndefined : value
| VNumber : Z -> value
| VObject : value.

(** The object returned by [data]: one watched field. *)
Record Vm : Type := mkVm { progress : Z }.

(** [data: function() { return { progress: 0 } }] *)
Definition data : Vm := {| progress := 0 |}.

(** The two library functions the methods call. *)
Module Math.
Definition min (a b : Z) : Z := Z.min a b.
Definition max (a b : Z) : Z := Z.max a b.
End Math.

(** ** The methods *)

(** A method is called with its actual arguments and with [this]; it
    returns the updated instance. *)
Definition method : Type := list value -> Vm -> Vm.

(** [advance: function() { this.progress = Math.min(this.progress + 1, 100); }]
    The sum is the script's where progress is a safe integer. *)
Definition advance : method :=
  fun _arguments this => {| progress := Math.min (progress this + 1) 100 |}.

(** [retreat: function() { this.progress = Math.max(this.progress - 1, 0); }]
    The difference is the script's where progress is a safe integer. *)
Definition retreat : method :=
  fun _arguments this => {| progress := Math.max (progress this - 1) 0 |}.

(** ** Sequences of calls *)

(** One user-triggered event: a call of either method, with its arguments. *)
Inductive call : Type :=
| Advance : list value -> call
| Retreat : list value -> call.

Definition exec (c : call) (this : Vm) : Vm :=
  match c with
  | Advance args => advance args this
  | Retreat args => retreat args this
  end.

(** The events are handled one at a time, in order. *)
Definition run (cs : list call) (this : Vm) : Vm :=
  fold_left (fun vm c => exec c vm) cs this.

(** The same method called [n] times in a row with the same arguments. *)
Definition times (n : nat) (m : method) (args : list value) (this : Vm) : Vm :=
  Nat.iter n (m args) this.

(** The states the application can be in: the initial one and whatever a
    call makes of a state it can be in. *)
Inductive reachable : Vm -> Prop :=
| reach_data : reachable data
| reach_call : forall c vm, reachable vm -> reachable (exec c vm).

(** The invariant of the data model. *)
Definition in_range (vm : Vm) : Prop := 0 <= progress vm <= 100.

(** [Number.MAX_SAFE_INTEGER], 2^53 - 1. *)
Definition MAX_SAFE_INTEGER : Z := Eval cbv in 2 ^ 53 - 1.

(** [Number.isSafeInteger]: the integers on which adding or subtracting 1 is
    exact in binary64. *)
Definition safe_integer (z : Z) : Prop :=
  - MAX_SAFE_INTEGER <= z <= MAX_SAFE_INTEGER.

(** Integers of magnitude at most 2^51: any sum of three of them is a safe
    integer. *)
Definition TWO_51 : Z := Eval cbv in 2 ^ 51.

Definition small_integer (z : Z) : Prop := - TWO_51 <= z <= TWO_51.

(** ** Counting the calls of a sequence *)

Definition is_advance (c : call) : bool :=
  match c with Advance _ => true | Retreat _ => false end.

Definition is_retreat (c : call) : bool :=
  match c with Advance _ => false | Retreat _ => true end.

(** How many calls of each method a sequence holds. *)
Definition advances (cs : list call) : nat := length (filter is_advance cs).
Definition retreats (cs : list call) : nat := length (filter is_retreat cs).

(** ** The variants written in the comment inside [advance]

    The body of [advance] carries a comment (lines 124 to 170 of the script)
    that spells out other ways to write the method.  They are not executed;
    they are embedded here as they are written, to compare them with the
    method that is. *)

(** Lines 128 to 132:
    [if (this.progress + 1 < 100) { this.progress++; } else { this.progress = 100; }] *)
Definition advance_if_else : method :=
  fun _arguments this =>
    if progress this + 1 <? 100
    then {| progress := progress this + 1 |}
    else {| progress := 100 |}.

(** Lines 136 to 138: [if (this.progress < 100) { this.progress + 1; }].
    The statement in the branch is an expression whose value is dropped;
    nothing is assigned. *)
Definition advance_no_assign : method :=
  fun _arguments this =>
    if progress this <? 100
    then let _dropped := progress this + 1 in this
    else this.

(** Lines 142 to 145, first statement: [this.progress++;] *)
Definition increment (this : Vm) : Vm := {| progress := progress this + 1 |}.

(** Lines 142 to 145, second statement:
    [if (this.progress > 100) { this.progress = 100; }] *)
Definition correct (this : Vm) : Vm :=
  if progress this >? 100 then {| progress := 100 |} else this.

(** Lines 142 to 145: the two statements in sequence.  Between them the
    instance is [increment this]. *)
Definition advance_then_correct : method :=
  fun _arguments this => correct (increment this).

(** Lines 162 to 164:
    [advance: function(input) { this.progress = Math.min(this.progress + input, 100); }],
    called with a number.  The sum is the script's where progress, the input
    and their sum are safe integers. *)
Definition advance_input (input : Z) (this : Vm) : Vm :=
  {| progress := Math.min (progress this + input) 100 |}.

(** ** The method bodies, operation by operation

    In the definitions above a method is a function on [Z], which cannot
    fail.  The operations the bodies are written with can: [+] and [-] throw
    a TypeError when one operand is a BigInt and the other a number, and
    [Math.min] and [Math.max] throw one when an argument is a BigInt.  The
    module below evaluates the two bodies one operation at a time, on a
    field that holds a value of either numeric type of the language. *)

Module Script.

(** A number, represented by the integer it holds, or a BigInt. *)
Inductive numeric : Type :=
| Number : Z -> numeric
| BigInt : Z -> numeric.

(** An evaluation yields a value or throws a TypeError. *)
Inductive completion (A : Type) : Type :=
| Normal : A -> completion A
| TypeError : completion A.

Arguments Normal {A} _.
Arguments TypeError {A}.

Definition bind {A B : Type} (c : completion A) (k : A -> completion B)
  : completion B :=
  match c with
  | Normal a => k a
  | TypeError => TypeError
  end.

(** [l + r] on numeric operands: both of the same type, or a TypeError. *)
Definition plus (l r : numeric) : completion numeric :=
  match l, r with
  | Number a, Number b => Normal (Number (a + b))
  | BigInt a, BigInt b => Normal (BigInt (a + b))
  | _, _ => TypeError
  end.

(** [l - r], likewise. *)
Definition minus (l r : numeric) : completion numeric :=
  match l, r with
  | Number a, Number b => Normal (Number (a - b))
  | BigInt a, BigInt b => Normal (BigInt (a - b))
  | _, _ => TypeError
  end.

(** The conversion [Math.min] and [Math.max] apply to each argument: a
    BigInt is refused. *)
Definition ToNumber (v : numeric) : completion Z :=
  match v with
  | Number a => Normal a
  | BigInt _ => TypeError
  end.

(** [Math.min(x, y)] and [Math.max(x, y)]. *)
Definition Math_min (x y : numeric) : completion numeric :=
  bind (ToNumber x) (fun a =>
  bind (ToNumber y) (fun b =>
  Normal (Number (Math.min a b)))).

Definition Math_max (x y : numeric) : completion numeric :=
  bind (ToNumber x) (fun a =>
  bind (ToNumber y) (fun b =>
  Normal (Number (Math.max a b)))).

(** The instance, with whatever numeric value its field holds. *)
Record Instance : Type := mkInstance { progress : numeric }.

(** [this.progress = Math.min(this.progress + 1, 100);] *)
Definition advance (_arguments : list value) (this : Instance)
  : completion Instance :=
  bind (plus (progress this) (Number 1)) (fun sum =>
  bind (Math_min sum (Number 100)) (fun m =>
  Normal {| progress := m |})).

(** [this.progress = Math.max(this.progress - 1, 0);] *)
Definition retreat (_arguments : list value) (this : Instance)
  : completion Instance :=
  bind (minus (progress this) (Number 1)) (fun difference =>
  bind (Math_max difference (Number 0)) (fun m =>
  Normal {| progress := m |})).

Definition exec (c : call) (this : Instance) : completion Instance :=
  match c with
  | Advance args => advance args this
  | Retreat args => retreat args this
  end.

(** The calls of a sequence, one after the other; the first one that throws
    ends the sequence. *)
Fixpoint run (cs : list call) (this : Instance) : completion Instance :=
  match cs with
  | [] => Normal this
  | c :: cs' => bind (exec c this) (run cs')
  end.

End Script.

(** An instance of the integer model, seen as one whose field holds a
    number. *)
Definition number (vm : Vm) : Script.Instance :=
  Script.mkInstance (Script.Number (progress vm)).

(** ** Elementary facts *)

Lemma progress_advance (args : list value) (vm : Vm) :
  progress (advance args vm) = Z.min (progress vm + 1) 100.
Proof. reflexivity. Qed.

Lemma progress_retreat (args : list value) (vm : Vm) :
  progress (retreat args vm) = Z.max (progress vm - 1) 0.
Proof. reflexivity. Qed.

Lemma Vm_eta (vm : Vm) : vm = mkVm (progress vm).
Proof. destruct vm; reflexivity. Qed.

Lemma Vm_ext (a b : Vm) : progress a = progress b -> a = b.
Proof. destruct a, b; simpl; intros ->; reflexivity. Qed.

Lemma advance_in_range (args : list value) (vm : Vm) :
  in_range vm -> in_range (advance args vm).
Proof. unfold in_range; rewrite progress_advance; lia. Qed.

Lemma retreat_in_range (args : list value) (vm : Vm) :
  in_range vm -> in_range (retreat args vm).
Proof. unfold in_range; rewrite progress_retreat; lia. Qed.

Lemma exec_in_range (c : call) (vm : Vm) :
  in_range vm -> in_range (exec c vm).
Proof.
  destruct c; simpl; [apply advance_in_range | apply retreat_in_range].
Qed.

Lemma data_in_range : in_range data.
Proof. unfold in_range; simpl; lia. Qed.

Lemma run_in_range (cs : list call) :
  forall vm, in_range vm -> in_range (run cs vm).
Proof.
  induction cs as [|c cs IH]; intros vm Hvm; simpl.
  - exact Hvm.
  - apply IH, exec_in_range, Hvm.
Qed.

Lemma run_app (cs ds : list call) (vm : Vm) :
  run (cs ++ ds) vm = run ds (run cs vm).
Proof. unfold run; apply fold_left_app. Qed.

(** [reachable] and [run] describe the same states. *)
Lemma reachable_run (cs : list call) : reachable (run cs data).
Proof.
  induction cs as [|c cs IH] using rev_ind.
  - apply reach_data.
  - rewrite run_app; simpl. apply reach_call, IH.
Qed.

Lemma reachable_is_run (vm : Vm) :
  reachable vm -> exists cs, vm = run cs data.
Proof.
  induction 1 as [|c vm _ [cs ->]].
  - exists []; reflexivity.
  - exists (cs ++ [c]); rewrite run_app; reflexivity.
Qed.

Lemma reachable_in_range (vm : Vm) : reachable vm -> in_range vm.
Proof.
  induction 1 as [|c vm _ IH]; [apply data_in_range | apply exec_in_range, IH].
Qed.

(** Below the upper bound a call of [advance] adds exactly 1, above the lower
    bound a call of [retreat] subtracts exactly 1. *)
Lemma advance_interior (args : list value) (vm : Vm) :
  progress vm < 100 -> progress (advance args vm) = progress vm + 1.
Proof. rewrite progress_advance; lia. Qed.

Lemma retreat_interior (args : list value) (vm : Vm) :
  0 < progress vm -> progress (retreat args vm) = progress vm - 1.
Proof. rewrite progress_retreat; lia. Qed.

(** Repeated calls, in closed form. *)
Lemma times_S (n : nat) (m : method) (args : list value) (vm : Vm) :
  times (S n) m args vm = m args (times n m args vm).
Proof. reflexivity. Qed.

Lemma progress_times_advance (n : nat) (args : list value) (vm : Vm) :
  progress vm <= 100 ->
  progress (times n advance args vm) = Z.min (progress vm + Z.of_nat n) 100.
Proof.
  intros Hle; induction n as [|n IH].
  - simpl; lia.
  - rewrite times_S, progress_advance, IH; lia.
Qed.

Lemma progress_times_retreat (n : nat) (args : list value) (vm : Vm) :
  0 <= progress vm ->
  progress (times n retreat args vm) = Z.max (progress vm - Z.of_nat n) 0.
Proof.
  intros Hle; induction n as [|n IH].
  - simpl; lia.
  - rewrite times_S, progress_retreat, IH; lia.
Qed.

(** ** The stated properties *)

(** *** Calls that pass a step *)

(** C1, as stated, at progress 0 and step 5: [advance(5)] leaves progress at
    1, while min(0 + 5, 100) is 5. *)
Lemma advance_step_5_from_0 :
  progress (advance [VNumber 5] (mkVm 0)) <> Math.min (0 + 5) 100.
Proof. vm_compute; discriminate. Qed.

(** C1 (amended): for every initial progress in [0,100] and every
    non-negative step, the call [advance(step)] sets progress to
    min(progress + 1, 100), the step passed being ignored, and the resulting
    progress is again in [0,100]. *)
Theorem advance_step_ignored (p step : Z) :
  0 <= p <= 100 ->
  0 <= step ->
  progress (advance [VNumber step] (mkVm p)) = Math.min (p + 1) 100 /\
  0 <= progress (advance [VNumber step] (mkVm p)) <= 100.
Proof.
  intros Hp _; rewrite progress_advance; simpl; unfold Math.min; lia.
Qed.

Lemma advance_step_ignored_witness :
  0 <= 100 <= 100 /\ 0 <= 7 /\
  progress (advance [VNumber 7] (mkVm 100)) = Math.min (100 + 1) 100 /\
  0 <= progress (advance [VNumber 7] (mkVm 100)) <= 100.
Proof.
  split; [lia | split; [lia | apply (advance_step_ignored 100 7); lia]].
Defined.

(** C2, as stated, at progress 10 and step 5: [retreat(5)] leaves progress
    at 9, while max(10 - 5, 0) is 5. *)
Lemma retreat_step_5_from_10 :
  progress (retreat [VNumber 5] (mkVm 10)) <> Math.max (10 - 5) 0.
Proof. vm_compute; discriminate. Qed.

(** C2 (amended): for every initial progress in [0,100] and every
    non-negative step, the call [retreat(step)] sets progress to
    max(progress - 1, 0), the step passed being ignored, and the resulting
    progress is again in [0,100]. *)
Theorem retreat_step_ignored (p step : Z) :
  0 <= p <= 100 ->
  0 <= step ->
  progress (retreat [VNumber step] (mkVm p)) = Math.max (p - 1) 0 /\
  0 <= progress (retreat [VNumber step] (mkVm p)) <= 100.
Proof.
  intros Hp _; rewrite progress_retreat; simpl; unfold Math.max; lia.
Qed.

Lemma retreat_step_ignored_witness :
  0 <= 0 <= 100 /\ 0 <= 7 /\
  progress (retreat [VNumber 7] (mkVm 0)) = Math.max (0 - 1) 0 /\
  0 <= progress (retreat [VNumber 7] (mkVm 0)) <= 100.
Proof.
  split; [lia | split; [lia | apply (retreat_step_ignored 0 7); lia]].
Defined.

(** C4, as stated: from progress 0 the single call [advance(1000)] does not
    leave progress at 100. *)
Lemma advance_1000_from_0_not_100 :
  progress (advance [VNumber 1000] data) <> 100.
Proof. vm_compute; discriminate. Qed.

(** C4 (amended): starting from progress 0, the single call [advance(1000)]
    sets progress to 1, because the argument is ignored. *)
Theorem advance_1000_from_0 :
  progress data = 0 /\ progress (advance [VNumber 1000] data) = 1.
Proof. split; reflexivity. Qed.

(** C5, as stated, at the bounds: a call does not always move progress by
    exactly 1.  At progress 100 [advance()] gives min(100 + 1, 100) = 100 and
    moves by 0; at progress 0 [retreat()] gives max(0 - 1, 0) = 0 and moves
    by 0. *)
Lemma clamped_call_does_not_move :
  progress (advance [] (mkVm 100)) = Math.min (100 + 1) 100 /\
  progress (advance [] (mkVm 100)) <> 100 + 1 /\
  progress (retreat [] (mkVm 0)) = Math.max (0 - 1) 0 /\
  progress (retreat [] (mkVm 0)) <> 0 - 1.
Proof. vm_compute; repeat split; discriminate. Qed.

(** C5 (amended): [advance] and [retreat] take no step.  For every safe
    integer progress p and whatever the caller passes, [advance] maps p to
    min(p + 1, 100) and [retreat] maps p to max(p - 1, 0), the same as the
    call without arguments; the move is by exactly 1 when the clamp does not
    apply (p < 100 for [advance], p > 0 for [retreat]) and only then. *)
Theorem no_step_parameter (args : list value) (p : Z) :
  safe_integer p ->
  progress (advance args (mkVm p)) = Math.min (p + 1) 100 /\
  progress (retreat args (mkVm p)) = Math.max (p - 1) 0 /\
  advance args (mkVm p) = advance [] (mkVm p) /\
  retreat args (mkVm p) = retreat [] (mkVm p) /\
  (progress (advance args (mkVm p)) = p + 1 <-> p < 100) /\
  (progress (retreat args (mkVm p)) = p - 1 <-> 0 < p).
Proof.
  intros _; repeat (split; [reflexivity |]).
  rewrite progress_advance, progress_retreat; cbn [progress]; lia.
Qed.

Lemma no_step_parameter_witness :
  safe_integer 99 /\
  progress (advance [VNumber 25] (mkVm 99)) = Math.min (99 + 1) 100 /\
  progress (retreat [VNumber 25] (mkVm 99)) = Math.max (99 - 1) 0 /\
  advance [VNumber 25] (mkVm 99) = advance [] (mkVm 99) /\
  retreat [VNumber 25] (mkVm 99) = retreat [] (mkVm 99) /\
  (progress (advance [VNumber 25] (mkVm 99)) = 99 + 1 <-> 99 < 100) /\
  (progress (retreat [VNumber 25] (mkVm 99)) = 99 - 1 <-> 0 < 99).
Proof.
  assert (H : safe_integer 99) by (unfold safe_integer, MAX_SAFE_INTEGER; lia).
  split; [exact H | exact (no_step_parameter [VNumber 25] 99 H)].
Defined.

(** *** The invariant *)

(** C3: the state is created with progress 0, and after any finite sequence
    of [advance] and [retreat] calls, whatever their arguments, progress is
    between 0 and 100. *)
Theorem progress_always_in_range (cs : list call) :
  progress data = 0 /\ 0 <= progress (run cs data) <= 100.
Proof.
  split; [reflexivity | exact (run_in_range cs data data_in_range)].
Qed.

(** *** Boundaries *)

(** C6: once progress is 100, any number of [advance()] calls leaves it at
    100; once progress is 0, any number of [retreat()] calls leaves it at
    0. *)
Theorem boundaries_absorbing (n : nat) :
  progress (times n advance [] (mkVm 100)) = 100 /\
  progress (times n retreat [] (mkVm 0)) = 0.
Proof.
  split.
  - rewrite progress_times_advance; cbn [progress]; lia.
  - rewrite progress_times_retreat; cbn [progress]; lia.
Qed.

(** C7: 150 calls of [advance()] from progress 0 give 100, not 150; 150
    calls of [retreat()] from progress 100 give 0. *)
Theorem saturation_after_150_calls :
  progress (times 150 advance [] (mkVm 0)) = 100 /\
  progress (times 150 advance [] (mkVm 0)) <> 150 /\
  progress (times 150 retreat [] (mkVm 100)) = 0.
Proof. vm_compute; repeat split; discriminate. Qed.

(** *** Composition *)

(** C8: from progress 50, [advance()] followed by [retreat()] gives 50
    again. *)
Theorem round_trip_at_50 :
  progress (retreat [] (advance [] (mkVm 50))) = 50.
Proof. reflexivity. Qed.

(** C9, as stated, at progress 0, which is in [0,100]: [advance()] then
    [retreat()] ends at 0, [retreat()] then [advance()] ends at 1. *)
Lemma order_matters_at_0 :
  0 <= 0 <= 100 /\
  progress (retreat [] (advance [] (mkVm 0))) = 0 /\
  progress (advance [] (retreat [] (mkVm 0))) = 1 /\
  progress (retreat [] (advance [] (mkVm 0)))
    <> progress (advance [] (retreat [] (mkVm 0))).
Proof. vm_compute; repeat split; discriminate. Qed.

(** The upper boundary behaves the same way. *)
Lemma order_matters_at_100 :
  progress (retreat [] (advance [] (mkVm 100))) = 99 /\
  progress (advance [] (retreat [] (mkVm 100))) = 100.
Proof. split; reflexivity. Qed.

(** C9 (amended): for every integer progress strictly between 0 and 100,
    [advance()] then [retreat()] ends in the same progress as [retreat()]
    then [advance()], namely the initial one. *)
Theorem order_independent_inside (p : Z) :
  0 < p < 100 ->
  progress (retreat [] (advance [] (mkVm p)))
    = progress (advance [] (retreat [] (mkVm p))) /\
  progress (retreat [] (advance [] (mkVm p))) = p.
Proof.
  intros Hp; rewrite progress_retreat, !progress_advance, progress_retreat.
  simpl; lia.
Qed.

Lemma order_independent_inside_witness :
  0 < 37 < 100 /\
  progress (retreat [] (advance [] (mkVm 37)))
    = progress (advance [] (retreat [] (mkVm 37))) /\
  progress (retreat [] (advance [] (mkVm 37))) = 37.
Proof.
  split; [lia | apply (order_independent_inside 37); lia].
Defined.

(** For progress in [0,100] the two orders agree exactly on the interior. *)
Lemma order_independent_iff (p : Z) :
  0 <= p <= 100 ->
  (retreat [] (advance [] (mkVm p)) = advance [] (retreat [] (mkVm p))
   <-> 0 < p < 100).
Proof.
  intros Hp; split.
  - intros H; apply (f_equal progress) in H.
    rewrite progress_retreat, !progress_advance, progress_retreat in H.
    simpl in H; lia.
  - intros Hin; apply Vm_ext.
    rewrite progress_retreat, !progress_advance, progress_retreat.
    simpl; lia.
Qed.

(** *** Totality *)

(** The safe integers are kept by both methods, so a sequence of calls that
    starts on one stays where the arithmetic of the script is exact. *)
Lemma exec_safe (c : call) (vm : Vm) :
  safe_integer (progress vm) -> safe_integer (progress (exec c vm)).
Proof.
  unfold safe_integer, MAX_SAFE_INTEGER; destruct c; cbn [exec];
    rewrite ?progress_advance, ?progress_retreat; lia.
Qed.

Lemma run_safe (cs : list call) :
  forall vm, safe_integer (progress vm) -> safe_integer (progress (run cs vm)).
Proof.
  induction cs as [|c cs IH]; intros vm H; [exact H |].
  exact (IH _ (exec_safe c vm H)).
Qed.

(** On a field that holds a number, each operation of a body yields a
    number, and the body ends as the integer model says. *)
Lemma Script_exec_number (c : call) (vm : Vm) :
  Script.exec c (number vm) = Script.Normal (number (exec c vm)).
Proof. destruct c; reflexivity. Qed.

Lemma Script_run_number (cs : list call) :
  forall vm, Script.run cs (number vm) = Script.Normal (number (run cs vm)).
Proof.
  induction cs as [|c cs IH]; intros vm; [reflexivity |].
  cbn [Script.run]; rewrite Script_exec_number; cbn [Script.bind].
  exact (IH (exec c vm)).
Qed.

(** The failure the operations have is real: on a field that holds a BigInt
    the first operation of either body throws. *)
Lemma bigint_progress_throws (args : list value) (z : Z) :
  Script.advance args (Script.mkInstance (Script.BigInt z)) = Script.TypeError /\
  Script.retreat args (Script.mkInstance (Script.BigInt z)) = Script.TypeError.
Proof. split; reflexivity. Qed.

(** C10: both methods are total on their domain and never fail.  When the
    field holds a number (a safe integer), a call of [advance] or of
    [retreat], whatever its arguments, completes normally: no operation of
    the body throws, and the field again holds a number, the one the integer
    model computes.  The same holds of every sequence of calls, which ends
    normally on a safe integer. *)
Theorem methods_never_throw (cs : list call) (args : list value) (vm : Vm) :
  safe_integer (progress vm) ->
  Script.advance args (number vm) = Script.Normal (number (advance args vm)) /\
  Script.retreat args (number vm) = Script.Normal (number (retreat args vm)) /\
  Script.run cs (number vm) = Script.Normal (number (run cs vm)) /\
  safe_integer (progress (run cs vm)).
Proof.
  intros H; split; [reflexivity | split; [reflexivity | split]].
  - apply Script_run_number.
  - apply run_safe, H.
Qed.

Lemma methods_never_throw_witness :
  safe_integer (progress (mkVm 100)) /\
  Script.advance [VObject] (number (mkVm 100))
    = Script.Normal (number (advance [VObject] (mkVm 100))) /\
  Script.retreat [VObject] (number (mkVm 100))
    = Script.Normal (number (retreat [VObject] (mkVm 100))) /\
  Script.run [Advance []; Retreat [VNumber 3]] (number (mkVm 100))
    = Script.Normal (number (run [Advance []; Retreat [VNumber 3]] (mkVm 100))) /\
  safe_integer (progress (run [Advance []; Retreat [VNumber 3]] (mkVm 100))).
Proof.
  assert (H : safe_integer (progress (mkVm 100)))
    by (unfold safe_integer, MAX_SAFE_INTEGER; cbn; lia).
  split; [exact H |].
  exact (methods_never_throw [Advance []; Retreat [VNumber 3]] [VObject] (mkVm 100) H).
Defined.

(** ** Further properties of the methods *)

Ltac prog :=
  cbn [exec]; rewrite ?progress_advance, ?progress_retreat.

Lemma run_cons (c : call) (cs : list call) (vm : Vm) :
  run (c :: cs) vm = run cs (exec c vm).
Proof. reflexivity. Qed.

Lemma advances_Advance (a : list value) (cs : list call) :
  advances (Advance a :: cs) = S (advances cs).
Proof. reflexivity. Qed.

Lemma advances_Retreat (a : list value) (cs : list call) :
  advances (Retreat a :: cs) = advances cs.
Proof. reflexivity. Qed.

Lemma retreats_Advance (a : list value) (cs : list call) :
  retreats (Advance a :: cs) = retreats cs.
Proof. reflexivity. Qed.

Lemma retreats_Retreat (a : list value) (cs : list call) :
  retreats (Retreat a :: cs) = S (retreats cs).
Proof. reflexivity. Qed.

Lemma exec_upper (c : call) (vm : Vm) :
  progress vm <= 100 -> progress (exec c vm) <= 100.
Proof. destruct c; prog; lia. Qed.

Lemma exec_lower (c : call) (vm : Vm) :
  0 <= progress vm -> 0 <= progress (exec c vm).
Proof. destruct c; prog; lia. Qed.

Lemma run_upper (cs : list call) :
  forall vm, progress vm <= 100 -> progress (run cs vm) <= 100.
Proof.
  induction cs as [|c cs IH]; intros vm H; [exact H |].
  rewrite run_cons; apply IH, exec_upper, H.
Qed.

Lemma run_lower (cs : list call) :
  forall vm, 0 <= progress vm -> 0 <= progress (run cs vm).
Proof.
  induction cs as [|c cs IH]; intros vm H; [exact H |].
  rewrite run_cons; apply IH, exec_lower, H.
Qed.

(** The first [advance] of a sequence puts progress under the upper bound,
    whatever it was, and the calls after it keep it there. *)
Lemma run_upper_after_advance (cs : list call) :
  forall vm, (0 < advances cs)%nat -> progress (run cs vm) <= 100.
Proof.
  induction cs as [|c cs IH]; intros vm H.
  - cbn in H; lia.
  - rewrite run_cons; destruct c as [a|a].
    + apply run_upper; prog; lia.
    + apply IH; exact H.
Qed.

Lemma run_lower_after_retreat (cs : list call) :
  forall vm, (0 < retreats cs)%nat -> 0 <= progress (run cs vm).
Proof.
  induction cs as [|c cs IH]; intros vm H.
  - cbn in H; lia.
  - rewrite run_cons; destruct c as [a|a].
    + apply IH; exact H.
    + apply run_lower; prog; lia.
Qed.

Lemma reachable_times_advance (n : nat) (args : list value) (vm : Vm) :
  reachable vm -> reachable (times n advance args vm).
Proof.
  intros H; induction n as [|n IH]; [exact H |].
  rewrite times_S; exact (reach_call (Advance args) _ IH).
Qed.

(** *** Repeated calls *)

(** X1: from any safe integer progress p not above 100, negative ones
    included, n calls of [advance] in a row leave progress at
    min(p + n, 100), whatever arguments they pass. *)
Theorem advance_n_calls (n : nat) (args : list value) (vm : Vm) :
  safe_integer (progress vm) ->
  progress vm <= 100 ->
  progress (times n advance args vm) = Z.min (progress vm + Z.of_nat n) 100.
Proof. intros _; exact (progress_times_advance n args vm). Qed.

Lemma advance_n_calls_witness :
  safe_integer (progress (mkVm (-7))) /\
  progress (mkVm (-7)) <= 100 /\
  progress (times 12 advance [] (mkVm (-7)))
    = Z.min (progress (mkVm (-7)) + Z.of_nat 12) 100.
Proof.
  assert (H : safe_integer (progress (mkVm (-7))))
    by (unfold safe_integer, MAX_SAFE_INTEGER; cbn; lia).
  split; [exact H | split; [cbn; lia |]].
  apply (advance_n_calls 12 [] (mkVm (-7)) H); cbn; lia.
Defined.

(** X2: from any safe integer progress p not below 0, those above 100
    included, n calls of [retreat] in a row leave progress at
    max(p - n, 0), whatever arguments they pass. *)
Theorem retreat_n_calls (n : nat) (args : list value) (vm : Vm) :
  safe_integer (progress vm) ->
  0 <= progress vm ->
  progress (times n retreat args vm) = Z.max (progress vm - Z.of_nat n) 0.
Proof. intros _; exact (progress_times_retreat n args vm). Qed.

Lemma retreat_n_calls_witness :
  safe_integer (progress (mkVm 108)) /\
  0 <= progress (mkVm 108) /\
  progress (times 12 retreat [] (mkVm 108))
    = Z.max (progress (mkVm 108) - Z.of_nat 12) 0.
Proof.
  assert (H : safe_integer (progress (mkVm 108)))
    by (unfold safe_integer, MAX_SAFE_INTEGER; cbn; lia).
  split; [exact H | split; [cbn; lia |]].
  apply (retreat_n_calls 12 [] (mkVm 108) H); cbn; lia.
Defined.

(** X3: from a progress p in [0,100], n calls of [advance] reach 100 exactly
    when n is at least 100 - p, and n calls of [retreat] reach 0 exactly when
    n is at least p. *)
Theorem calls_needed_to_saturate (n : nat) (args : list value) (vm : Vm) :
  in_range vm ->
  (progress (times n advance args vm) = 100 <-> 100 - progress vm <= Z.of_nat n) /\
  (progress (times n retreat args vm) = 0 <-> progress vm <= Z.of_nat n).
Proof.
  unfold in_range; intros H.
  rewrite progress_times_advance, progress_times_retreat by lia; lia.
Qed.

Lemma calls_needed_to_saturate_witness :
  in_range (mkVm 40) /\
  (progress (times 59 advance [] (mkVm 40)) = 100 <-> 100 - progress (mkVm 40) <= Z.of_nat 59) /\
  (progress (times 59 retreat [] (mkVm 40)) = 0 <-> progress (mkVm 40) <= Z.of_nat 59).
Proof.
  assert (H : in_range (mkVm 40)) by (unfold in_range; cbn; lia).
  split; [exact H | exact (calls_needed_to_saturate 59 [] (mkVm 40) H)].
Defined.

(** X4: n calls of [advance] followed by n calls of [retreat] bring a
    progress p of [0,100] back to p exactly when p + n <= 100, or p = 0 and
    n >= 100; n calls of [retreat] followed by n calls of [advance] bring it
    back exactly when n <= p, or p = 100 and n >= 100. *)
Theorem undo_n_calls (n : nat) (a r : list value) (vm : Vm) :
  in_range vm ->
  (times n retreat r (times n advance a vm) = vm
   <-> progress vm + Z.of_nat n <= 100 \/ (progress vm = 0 /\ 100 <= Z.of_nat n)) /\
  (times n advance a (times n retreat r vm) = vm
   <-> Z.of_nat n <= progress vm \/ (progress vm = 100 /\ 100 <= Z.of_nat n)).
Proof.
  unfold in_range; intros H.
  assert (E1 : progress (times n retreat r (times n advance a vm))
               = Z.max (Z.min (progress vm + Z.of_nat n) 100 - Z.of_nat n) 0).
  { rewrite progress_times_retreat; rewrite progress_times_advance; lia. }
  assert (E2 : progress (times n advance a (times n retreat r vm))
               = Z.min (Z.max (progress vm - Z.of_nat n) 0 + Z.of_nat n) 100).
  { rewrite progress_times_advance; rewrite progress_times_retreat; lia. }
  split; split.
  - intros E; rewrite E in E1; lia.
  - intros C; apply Vm_ext; rewrite E1; lia.
  - intros E; rewrite E in E2; lia.
  - intros C; apply Vm_ext; rewrite E2; lia.
Qed.

Lemma undo_n_calls_witness :
  in_range (mkVm 30) /\
  (times 70 retreat [] (times 70 advance [] (mkVm 30)) = mkVm 30
   <-> progress (mkVm 30) + Z.of_nat 70 <= 100
       \/ (progress (mkVm 30) = 0 /\ 100 <= Z.of_nat 70)) /\
  (times 70 advance [] (times 70 retreat [] (mkVm 30)) = mkVm 30
   <-> Z.of_nat 70 <= progress (mkVm 30)
       \/ (progress (mkVm 30) = 100 /\ 100 <= Z.of_nat 70)).
Proof.
  assert (H : in_range (mkVm 30)) by (unfold in_range; cbn; lia).
  split; [exact H | exact (undo_n_calls 70 [] [] (mkVm 30) H)].
Defined.

(** *** Sequences of calls *)

(** X5: the states the application can reach from its initial state by
    calls of its two methods are exactly those with an integer progress
    between 0 and 100: none outside, and every one inside. *)
Theorem reachable_iff_in_range (vm : Vm) : reachable vm <-> in_range vm.
Proof.
  split; [apply reachable_in_range |].
  unfold in_range; intros H.
  assert (E : vm = times (Z.to_nat (progress vm)) advance [] data).
  { apply Vm_ext; rewrite progress_times_advance; cbn [progress data]; lia. }
  rewrite E; apply reachable_times_advance, reach_data.
Qed.

(** X6: if progress was set from outside to any integer, in range or not, a
    sequence of calls that holds at least one [advance] and at least one
    [retreat] ends with progress between 0 and 100. *)
Theorem calls_restore_range (cs : list call) (vm : Vm) :
  (0 < advances cs)%nat ->
  (0 < retreats cs)%nat ->
  in_range (run cs vm).
Proof.
  intros Ha Hr; split;
    [apply run_lower_after_retreat, Hr | apply run_upper_after_advance, Ha].
Qed.

Lemma calls_restore_range_witness :
  (0 < advances [Retreat []; Advance [VObject]])%nat /\
  (0 < retreats [Retreat []; Advance [VObject]])%nat /\
  in_range (run [Retreat []; Advance [VObject]] (mkVm 250)).
Proof.
  split; [cbn; lia | split; [cbn; lia |]].
  apply (calls_restore_range [Retreat []; Advance [VObject]] (mkVm 250)); cbn; lia.
Defined.

(** X7: from a progress in [0,100], a sequence of calls raises progress by
    at most the number of its [advance] calls and lowers it by at most the
    number of its [retreat] calls. *)
Theorem run_displacement (cs : list call) (vm : Vm) :
  in_range vm ->
  progress vm - Z.of_nat (retreats cs)
    <= progress (run cs vm)
    <= progress vm + Z.of_nat (advances cs).
Proof.
  revert vm; induction cs as [|c cs IH]; intros vm H.
  - cbn; lia.
  - rewrite run_cons.
    pose proof (IH _ (exec_in_range c vm H)) as B.
    unfold in_range in H; revert B; destruct c as [a|a]; prog;
      rewrite ?advances_Advance, ?advances_Retreat,
              ?retreats_Advance, ?retreats_Retreat; lia.
Qed.

Lemma run_displacement_witness :
  in_range (mkVm 99) /\
  progress (mkVm 99) - Z.of_nat (retreats [Advance []; Advance []; Retreat []])
    <= progress (run [Advance []; Advance []; Retreat []] (mkVm 99))
    <= progress (mkVm 99) + Z.of_nat (advances [Advance []; Advance []; Retreat []]).
Proof.
  assert (H : in_range (mkVm 99)) by (unfold in_range; cbn; lia).
  split; [exact H |].
  exact (run_displacement [Advance []; Advance []; Retreat []] (mkVm 99) H).
Defined.

(** X8: when a sequence holds no more [retreat] calls than the current
    progress p and no more [advance] calls than 100 - p, no call of it is
    clamped: it ends at p + (number of advances) - (number of retreats), in
    whatever order the calls come. *)
Theorem run_unclamped (cs : list call) (vm : Vm) :
  Z.of_nat (retreats cs) <= progress vm ->
  progress vm + Z.of_nat (advances cs) <= 100 ->
  progress (run cs vm)
    = progress vm + Z.of_nat (advances cs) - Z.of_nat (retreats cs).
Proof.
  revert vm; induction cs as [|c cs IH]; intros vm Hr Ha.
  - cbn; lia.
  - rewrite run_cons; revert Hr Ha; destruct c as [a|a];
      rewrite ?advances_Advance, ?advances_Retreat,
              ?retreats_Advance, ?retreats_Retreat; intros Hr Ha;
      rewrite IH; prog; lia.
Qed.

Lemma run_unclamped_witness :
  Z.of_nat (retreats [Retreat []; Advance []; Advance []; Retreat []])
    <= progress (mkVm 2) /\
  progress (mkVm 2)
    + Z.of_nat (advances [Retreat []; Advance []; Advance []; Retreat []]) <= 100 /\
  progress (run [Retreat []; Advance []; Advance []; Retreat []] (mkVm 2))
    = progress (mkVm 2)
      + Z.of_nat (advances [Retreat []; Advance []; Advance []; Retreat []])
      - Z.of_nat (retreats [Retreat []; Advance []; Advance []; Retreat []]).
Proof.
  split; [cbn; lia | split; [cbn; lia |]].
  apply (run_unclamped [Retreat []; Advance []; Advance []; Retreat []] (mkVm 2));
    cbn; lia.
Defined.

Lemma run_gap (cs : list call) :
  forall a b : Vm,
    progress a <= progress b ->
    0 <= progress (run cs b) - progress (run cs a) <= progress b - progress a.
Proof.
  induction cs as [|c cs IH]; intros a b H.
  - cbn; lia.
  - rewrite !run_cons.
    assert (E : 0 <= progress (exec c b) - progress (exec c a)
                  <= progress b - progress a)
      by (destruct c; prog; lia).
    specialize (IH (exec c a) (exec c b)); lia.
Qed.

(** X9: two instances whose progress values are safe integers and that
    receive the same sequence of calls keep their order, and the gap between
    their progress values never grows. *)
Theorem run_monotone_nonexpansive (cs : list call) (a b : Vm) :
  safe_integer (progress a) ->
  safe_integer (progress b) ->
  progress a <= progress b ->
  0 <= progress (run cs b) - progress (run cs a) <= progress b - progress a.
Proof. intros _ _; apply run_gap. Qed.

Lemma run_monotone_nonexpansive_witness :
  safe_integer (progress (mkVm 1)) /\
  safe_integer (progress (mkVm 4)) /\
  progress (mkVm 1) <= progress (mkVm 4) /\
  0 <= progress (run [Retreat []; Retreat []; Advance []] (mkVm 4))
       - progress (run [Retreat []; Retreat []; Advance []] (mkVm 1))
    <= progress (mkVm 4) - progress (mkVm 1).
Proof.
  assert (H1 : safe_integer (progress (mkVm 1)))
    by (unfold safe_integer, MAX_SAFE_INTEGER; cbn; lia).
  assert (H4 : safe_integer (progress (mkVm 4)))
    by (unfold safe_integer, MAX_SAFE_INTEGER; cbn; lia).
  split; [exact H1 | split; [exact H4 | split; [cbn; lia |]]].
  apply (run_monotone_nonexpansive [Retreat []; Retreat []; Advance []]
           (mkVm 1) (mkVm 4) H1 H4); cbn; lia.
Defined.

(** *** The variants of the comment against the method *)

(** X10: the branching variant of lines 128 to 132 computes the same
    instance as [advance], for every integer progress and whatever the
    arguments. *)
Theorem advance_if_else_is_advance (a b : list value) (vm : Vm) :
  advance_if_else a vm = advance b vm.
Proof.
  apply Vm_ext; rewrite progress_advance; unfold advance_if_else.
  destruct (Z.ltb_spec (progress vm + 1) 100); cbn [progress]; lia.
Qed.

(** X11: the variant of lines 136 to 138 assigns nothing: it leaves the
    instance as it is, and on a safe integer progress it agrees with
    [advance] only when progress is exactly 100. *)
Theorem advance_no_assign_is_identity (a b : list value) (vm : Vm) :
  safe_integer (progress vm) ->
  advance_no_assign a vm = vm /\
  (advance_no_assign a vm = advance b vm <-> progress vm = 100).
Proof.
  intros _.
  assert (E : advance_no_assign a vm = vm)
    by (unfold advance_no_assign; destruct (progress vm <? 100); reflexivity).
  split; [exact E |]; rewrite E; split.
  - intros H; apply (f_equal progress) in H; rewrite progress_advance in H; lia.
  - intros H; apply Vm_ext; rewrite progress_advance; lia.
Qed.

Lemma advance_no_assign_is_identity_witness :
  safe_integer (progress (mkVm 100)) /\
  advance_no_assign [] (mkVm 100) = mkVm 100 /\
  (advance_no_assign [] (mkVm 100) = advance [] (mkVm 100)
   <-> progress (mkVm 100) = 100).
Proof.
  assert (H : safe_integer (progress (mkVm 100)))
    by (unfold safe_integer, MAX_SAFE_INTEGER; cbn; lia).
  split; [exact H | exact (advance_no_assign_is_identity [] [] (mkVm 100) H)].
Defined.

(** X12: the increment-then-correct variant of lines 142 to 145 ends in the
    same instance as [advance], but from a progress in [0,100] the instance
    it shows between its two statements is in range only when progress is
    below 100: at 100 it passes through 101. *)
Theorem advance_then_correct_transient (a b : list value) (vm : Vm) :
  in_range vm ->
  advance_then_correct a vm = advance b vm /\
  (in_range (increment vm) <-> progress vm < 100).
Proof.
  unfold in_range; intros H; split.
  - apply Vm_ext; rewrite progress_advance.
    unfold advance_then_correct, correct, increment; cbn [progress].
    destruct (Z.gtb_spec (progress vm + 1) 100); cbn [progress]; lia.
  - unfold increment; cbn [progress]; lia.
Qed.

Lemma advance_then_correct_transient_witness :
  in_range (mkVm 100) /\
  advance_then_correct [] (mkVm 100) = advance [] (mkVm 100) /\
  (in_range (increment (mkVm 100)) <-> progress (mkVm 100) < 100).
Proof.
  assert (H : in_range (mkVm 100)) by (unfold in_range; cbn; lia).
  split; [exact H | exact (advance_then_correct_transient [] [] (mkVm 100) H)].
Defined.

(** X13: with the parameterised variant of lines 162 to 164, when progress
    and the inputs a and b are integers of magnitude at most 2^51 and b is
    not negative, a call with input a followed by a call with input b is one
    call with input a + b.  Every sum the two sides compute is then a safe
    integer. *)
Theorem advance_input_compose (a b : Z) (vm : Vm) :
  small_integer (progress vm) ->
  small_integer a ->
  small_integer b ->
  0 <= b ->
  advance_input b (advance_input a vm) = advance_input (a + b) vm /\
  safe_integer (progress vm + a) /\
  safe_integer (progress (advance_input a vm) + b) /\
  safe_integer (a + b) /\
  safe_integer (progress vm + (a + b)).
Proof.
  unfold small_integer, safe_integer, TWO_51, MAX_SAFE_INTEGER.
  intros Hp Ha Hb Hb0; split.
  - apply Vm_ext; unfold advance_input, Math.min; cbn [progress]; lia.
  - unfold advance_input, Math.min; cbn [progress]; lia.
Qed.

Lemma advance_input_compose_witness :
  small_integer (progress (mkVm 5)) /\
  small_integer 70 /\
  small_integer 60 /\
  0 <= 60 /\
  advance_input 60 (advance_input 70 (mkVm 5)) = advance_input (70 + 60) (mkVm 5) /\
  safe_integer (progress (mkVm 5) + 70) /\
  safe_integer (progress (advance_input 70 (mkVm 5)) + 60) /\
  safe_integer (70 + 60) /\
  safe_integer (progress (mkVm 5) + (70 + 60)).
Proof.
  assert (Hp : small_integer (progress (mkVm 5)))
    by (unfold small_integer, TWO_51; cbn; lia).
  assert (Ha : small_integer 70) by (unfold small_integer, TWO_51; lia).
  assert (Hb : small_integer 60) by (unfold small_integer, TWO_51; lia).
  split; [exact Hp | split; [exact Ha | split; [exact Hb | split; [lia |]]]].
  apply (advance_input_compose 70 60 (mkVm 5) Hp Ha Hb); lia.
Defined.

(** X14: from a safe integer progress p not above 100, and for n at most
    2^53 - 101, n calls of the method [advance] do what a single call of the
    parameterised variant with input n would; the sum p + n that call
    computes is a safe integer. *)
Theorem advance_n_calls_is_input (n : nat) (args : list value) (vm : Vm) :
  safe_integer (progress vm) ->
  progress vm <= 100 ->
  Z.of_nat n <= MAX_SAFE_INTEGER - 100 ->
  times n advance args vm = advance_input (Z.of_nat n) vm /\
  safe_integer (progress vm + Z.of_nat n).
Proof.
  intros Hs H Hn; split.
  - apply Vm_ext; rewrite progress_times_advance by exact H; reflexivity.
  - revert Hs Hn; unfold safe_integer, MAX_SAFE_INTEGER; lia.
Qed.

Lemma advance_n_calls_is_input_witness :
  safe_integer (progress (mkVm 97)) /\
  progress (mkVm 97) <= 100 /\
  Z.of_nat 5 <= MAX_SAFE_INTEGER - 100 /\
  times 5 advance [VNumber 2] (mkVm 97) = advance_input (Z.of_nat 5) (mkVm 97) /\
  safe_integer (progress (mkVm 97) + Z.of_nat 5).
Proof.
  assert (H : safe_integer (progress (mkVm 97)))
    by (unfold safe_integer, MAX_SAFE_INTEGER; cbn; lia).
  split; [exact H | split; [cbn; lia | split; [unfold MAX_SAFE_INTEGER; cbn; lia |]]].
  apply (advance_n_calls_is_input 5 [VNumber 2] (mkVm 97) H);
    [cbn; lia | unfold MAX_SAFE_INTEGER; cbn; lia].
Defined.
